(** * StreamPay: a shallow embedding of the streaming-payments contract

    The contract [StreamPay] (Solidity ^0.8.20) keeps payment streams and
    rate-based subscriptions.  This development embeds its storage, its
    checked 256-bit arithmetic and each of its functions as executable
    Rocq definitions, and proves properties of the accrual and settlement
    arithmetic and of the order in which state writes and value transfers
    happen.

    Conventions of the embedding:
    - [uint256] values are [N]; Solidity 0.8 arithmetic is checked, so an
      operation whose result leaves [0, 2^256) fails with [Panic 0x11]
      instead of wrapping around;
    - a Solidity [mapping] is a [gmap] read through a default (the zero
      value of the value type);
    - a function body is a computation in the monad [M]: it threads the
      contract state, may revert, and records in program order every
      storage write, value transfer and emitted log entry;
    - a [view] function is a plain function of the state into [Checked];
    - a reverted call leaves the state as it was ([run]);
    - [reachable] states are those the deployed contract gets into by
      calls of its external functions, with any callers, values and
      non-decreasing block timestamps. *)

From Stdlib Require Import NArith String List Bool Lia Sorting.Sorted.
From stdpp Require Import base option gmap strings list.

Open Scope N_scope.

(** ** Machine arithmetic *)

Definition address : Type := N.

Definition MAX_UINT256 : N := 2 ^ 256 - 1.

Inductive Failure : Type :=
| RequireFailed (msg : string)
| Panic (code : N)
| CustomError (name : string)
| TransferFailed.

Inductive Checked (A : Type) : Type :=
| Good (a : A)
| Bad (f : Failure).
Arguments Good {A} a.
Arguments Bad {A} f.

#[global] Instance Checked_ret : MRet Checked := fun A a => Good a.
#[global] Instance Checked_bind : MBind Checked := fun A B k c =>
  match c with
  | Good a => k a
  | Bad f => Bad f
  end.

Definition ARITHMETIC : N := 17.

Definition checked_add (a b : N) : Checked N :=
  if a + b <=? MAX_UINT256 then Good (a + b) else Bad (Panic ARITHMETIC).

Definition checked_sub (a b : N) : Checked N :=
  if b <=? a then Good (a - b) else Bad (Panic ARITHMETIC).

Definition checked_mul (a b : N) : Checked N :=
  if a * b <=? MAX_UINT256 then Good (a * b) else Bad (Panic ARITHMETIC).

Definition check (b : bool) (msg : string) : Checked unit :=
  if b then Good tt else Bad (RequireFailed msg).

(** ** Storage *)

Record Stream : Type := mkStream {
  stream_id : N;
  stream_sender : address;
  stream_recipient : address;
  stream_deposit : N;
  stream_ratePerSecond : N;
  stream_startTime : N;
  stream_stopTime : N;
  stream_remainingBalance : N;
  stream_active : bool
}.

Record Subscription : Type := mkSubscription {
  sub_id : N;
  sub_subscriber : address;
  sub_provider : address;
  sub_ratePerSecond : N;
  sub_lastPaymentTime : N;
  sub_active : bool
}.

Definition zeroStream : Stream := mkStream 0 0 0 0 0 0 0 0 false.
Definition zeroSubscription : Subscription := mkSubscription 0 0 0 0 0 false.

Inductive GuardStatus : Type := NOT_ENTERED | ENTERED.

Record State : Type := mkState {
  streams : gmap N Stream;
  subscriptions : gmap N Subscription;
  userStreams : gmap N (list N);
  recipientStreams : gmap N (list N);
  userSubscriptions : gmap N (list N);
  balances : gmap N N;
  nextStreamId : N;
  nextSubscriptionId : N;
  platformFee : N;
  (* inherited from Ownable and ReentrancyGuard *)
  owner : address;
  guard_status : GuardStatus;
  (* the value held by the contract account, address(this).balance *)
  this_balance : N
}.

(** Reading a mapping yields the zero value where nothing was stored. *)
Definition stream_at (st : State) (i : N) : Stream :=
  default zeroStream (streams st !! i).
Definition subscription_at (st : State) (i : N) : Subscription :=
  default zeroSubscription (subscriptions st !! i).
Definition balance_at (st : State) (a : address) : N :=
  default 0 (balances st !! a).
Definition userStreams_at (st : State) (a : address) : list N :=
  default [] (userStreams st !! a).
Definition recipientStreams_at (st : State) (a : address) : list N :=
  default [] (recipientStreams st !! a).
Definition userSubscriptions_at (st : State) (a : address) : list N :=
  default [] (userSubscriptions st !! a).

Definition with_streams (f : gmap N Stream -> gmap N Stream) (st : State) : State :=
  mkState (f (streams st)) (subscriptions st) (userStreams st)
    (recipientStreams st) (userSubscriptions st) (balances st)
    (nextStreamId st) (nextSubscriptionId st) (platformFee st) (owner st)
    (guard_status st) (this_balance st).
Definition with_subscriptions
    (f : gmap N Subscription -> gmap N Subscription) (st : State) : State :=
  mkState (streams st) (f (subscriptions st)) (userStreams st)
    (recipientStreams st) (userSubscriptions st) (balances st)
    (nextStreamId st) (nextSubscriptionId st) (platformFee st) (owner st)
    (guard_status st) (this_balance st).
Definition with_userStreams
    (f : gmap N (list N) -> gmap N (list N)) (st : State) : State :=
  mkState (streams st) (subscriptions st) (f (userStreams st))
    (recipientStreams st) (userSubscriptions st) (balances st)
    (nextStreamId st) (nextSubscriptionId st) (platformFee st) (owner st)
    (guard_status st) (this_balance st).
Definition with_recipientStreams
    (f : gmap N (list N) -> gmap N (list N)) (st : State) : State :=
  mkState (streams st) (subscriptions st) (userStreams st)
    (f (recipientStreams st)) (userSubscriptions st) (balances st)
    (nextStreamId st) (nextSubscriptionId st) (platformFee st) (owner st)
    (guard_status st) (this_balance st).
Definition with_userSubscriptions
    (f : gmap N (list N) -> gmap N (list N)) (st : State) : State :=
  mkState (streams st) (subscriptions st) (userStreams st)
    (recipientStreams st) (f (userSubscriptions st)) (balances st)
    (nextStreamId st) (nextSubscriptionId st) (platformFee st) (owner st)
    (guard_status st) (this_balance st).
Definition with_balances (f : gmap N N -> gmap N N) (st : State) : State :=
  mkState (streams st) (subscriptions st) (userStreams st)
    (recipientStreams st) (userSubscriptions st) (f (balances st))
    (nextStreamId st) (nextSubscriptionId st) (platformFee st) (owner st)
    (guard_status st) (this_balance st).
Definition with_nextStreamId (v : N) (st : State) : State :=
  mkState (streams st) (subscriptions st) (userStreams st)
    (recipientStreams st) (userSubscriptions st) (balances st)
    v (nextSubscriptionId st) (platformFee st) (owner st)
    (guard_status st) (this_balance st).
Definition with_nextSubscriptionId (v : N) (st : State) : State :=
  mkState (streams st) (subscriptions st) (userStreams st)
    (recipientStreams st) (userSubscriptions st) (balances st)
    (nextStreamId st) v (platformFee st) (owner st)
    (guard_status st) (this_balance st).
Definition with_platformFee (v : N) (st : State) : State :=
  mkState (streams st) (subscriptions st) (userStreams st)
    (recipientStreams st) (userSubscriptions st) (balances st)
    (nextStreamId st) (nextSubscriptionId st) v (owner st)
    (guard_status st) (this_balance st).
Definition with_owner (v : address) (st : State) : State :=
  mkState (streams st) (subscriptions st) (userStreams st)
    (recipientStreams st) (userSubscriptions st) (balances st)
    (nextStreamId st) (nextSubscriptionId st) (platformFee st) v
    (guard_status st) (this_balance st).
Definition with_guard_status (v : GuardStatus) (st : State) : State :=
  mkState (streams st) (subscriptions st) (userStreams st)
    (recipientStreams st) (userSubscriptions st) (balances st)
    (nextStreamId st) (nextSubscriptionId st) (platformFee st) (owner st)
    v (this_balance st).
Definition with_this_balance (v : N) (st : State) : State :=
  mkState (streams st) (subscriptions st) (userStreams st)
    (recipientStreams st) (userSubscriptions st) (balances st)
    (nextStreamId st) (nextSubscriptionId st) (platformFee st) (owner st)
    (guard_status st) v.

Definition set_remainingBalance (v : N) (s : Stream) : Stream :=
  mkStream (stream_id s) (stream_sender s) (stream_recipient s)
    (stream_deposit s) (stream_ratePerSecond s) (stream_startTime s)
    (stream_stopTime s) v (stream_active s).
Definition set_stream_active (b : bool) (s : Stream) : Stream :=
  mkStream (stream_id s) (stream_sender s) (stream_recipient s)
    (stream_deposit s) (stream_ratePerSecond s) (stream_startTime s)
    (stream_stopTime s) (stream_remainingBalance s) b.
Definition set_lastPaymentTime (v : N) (s : Subscription) : Subscription :=
  mkSubscription (sub_id s) (sub_subscriber s) (sub_provider s)
    (sub_ratePerSecond s) v (sub_active s).
Definition set_sub_active (b : bool) (s : Subscription) : Subscription :=
  mkSubscription (sub_id s) (sub_subscriber s) (sub_provider s)
    (sub_ratePerSecond s) (sub_lastPaymentTime s) b.

(** ** Calls, effects and the execution monad *)

(** What a call sees of its transaction: [msg.sender], [msg.value] and
    [block.timestamp]. *)
Record Env : Type := mkEnv {
  msg_sender : address;
  msg_value : N;
  block_timestamp : N
}.

(** The storage locations a function writes. *)
Inductive Slot : Type :=
| SlotStream (i : N)
| SlotStreamRemainingBalance (i : N)
| SlotStreamActive (i : N)
| SlotSubscription (i : N)
| SlotSubLastPaymentTime (i : N)
| SlotSubActive (i : N)
| SlotBalance (a : address)
| SlotUserStreams (a : address)
| SlotRecipientStreams (a : address)
| SlotUserSubscriptions (a : address)
| SlotNextStreamId
| SlotNextSubscriptionId
| SlotPlatformFee
| SlotOwner
| SlotGuardStatus.

(** The entries of the contract's event log. *)
Inductive Log : Type :=
| StreamCreated (streamId : N) (sender recipient : address)
    (deposit ratePerSecond startTime stopTime : N)
| StreamWithdrawn (streamId : N) (recipient : address) (amount : N)
| StreamCancelled (streamId : N) (sender recipient : address)
    (senderBalance recipientBalance : N)
| SubscriptionCreated (subscriptionId : N) (subscriber provider : address)
    (ratePerSecond : N)
| SubscriptionPayment (subscriptionId : N) (subscriber provider : address)
    (amount : N)
| SubscriptionCancelled (subscriptionId : N) (subscriber : address)
| OwnershipTransferred (previousOwner newOwner : address).

Inductive Event : Type :=
| EvWrite (s : Slot)
| EvTransfer (to : address) (amount : N)
| EvEmit (l : Log).

Inductive Result (A : Type) : Type :=
| Ok (a : A) (st : State) (tr : list Event)
| Revert (f : Failure).
Arguments Ok {A} a st tr.
Arguments Revert {A} f.

Definition M (A : Type) : Type := State -> Result A.

#[global] Instance M_ret : MRet M := fun A a st => Ok a st [].
#[global] Instance M_bind : MBind M := fun A B k m st =>
  match m st with
  | Ok a st1 tr1 =>
      match k a st1 with
      | Ok b st2 tr2 => Ok b st2 (tr1 ++ tr2)
      | Revert f => Revert f
      end
  | Revert f => Revert f
  end.

(** A pure computation, or a [view] function applied to the current
    state, run inside a function body. *)
Definition pure {A : Type} (c : Checked A) : M A := fun st =>
  match c with
  | Good a => Ok a st []
  | Bad f => Revert f
  end.

Definition view {A : Type} (f : State -> Checked A) : M A := fun st =>
  pure (f st) st.

Definition read {A : Type} (f : State -> A) : M A := fun st => Ok (f st) st [].

Definition require (b : bool) (msg : string) : M unit := pure (check b msg).

Definition write (s : Slot) (f : State -> State) : M unit := fun st =>
  Ok tt (f st) [EvWrite s].

Definition emit (l : Log) : M unit := fun st => Ok tt st [EvEmit l].

(** [payable(to).transfer(amount)]: the contract must hold the amount;
    the receiving account is taken to accept it. *)
Definition transfer (to : address) (amount : N) : M unit := fun st =>
  if amount <=? this_balance st
  then Ok tt (with_this_balance (this_balance st - amount) st)
         [EvTransfer to amount]
  else Revert TransferFailed.

(** Entering a [payable] function adds [msg.value] to the contract's
    holdings before the body runs. *)
Definition receive_value (env : Env) : M unit := fun st =>
  Ok tt (with_this_balance (this_balance st + msg_value env) st) [].

(** The error with which ReentrancyGuard refuses a nested entry. *)
Definition REENTRANT : Failure := CustomError "ReentrancyGuardReentrantCall".

(** The [nonReentrant] modifier of ReentrancyGuard (OpenZeppelin, which
    the source imports): refuse a nested entry, hold the lock for the
    body, release it afterwards. *)
Definition nonReentrant {A : Type} (body : M A) : M A :=
  s ← read guard_status;
  match s with
  | ENTERED => pure (Bad REENTRANT)
  | NOT_ENTERED =>
      write SlotGuardStatus (with_guard_status ENTERED);;
      a ← body;
      write SlotGuardStatus (with_guard_status NOT_ENTERED);;
      mret a
  end.

(** The [onlyOwner] modifier of Ownable (OpenZeppelin). *)
Definition onlyOwner {A : Type} (env : Env) (body : M A) : M A :=
  o ← read owner;
  if msg_sender env =? o then body
  else pure (Bad (CustomError "OwnableUnauthorizedAccount")).

(** A transaction either commits the final state or, on a revert,
    leaves the state it started from. *)
Definition run {A : Type} (m : M A) (st : State)
    : State * Checked (A * list Event) :=
  match m st with
  | Ok a st' tr => (st', Good (a, tr))
  | Revert f => (st, Bad f)
  end.

(** The trace of a call that succeeds (empty if it reverts). *)
Definition trace_of {A : Type} (m : M A) (st : State) : list Event :=
  match m st with
  | Ok _ _ tr => tr
  | Revert _ => []
  end.

(** Storage writes, one per assignment in the source. *)
Definition store_stream (i : N) (s : Stream) : M unit :=
  write (SlotStream i) (with_streams <[i := s]>).
Definition store_remainingBalance (i v : N) : M unit :=
  write (SlotStreamRemainingBalance i)
    (fun st => with_streams <[i := set_remainingBalance v (stream_at st i)]> st).
Definition store_stream_active (i : N) (b : bool) : M unit :=
  write (SlotStreamActive i)
    (fun st => with_streams <[i := set_stream_active b (stream_at st i)]> st).
Definition store_subscription (i : N) (s : Subscription) : M unit :=
  write (SlotSubscription i) (with_subscriptions <[i := s]>).
Definition store_lastPaymentTime (i v : N) : M unit :=
  write (SlotSubLastPaymentTime i)
    (fun st => with_subscriptions
                 <[i := set_lastPaymentTime v (subscription_at st i)]> st).
Definition store_sub_active (i : N) (b : bool) : M unit :=
  write (SlotSubActive i)
    (fun st => with_subscriptions
                 <[i := set_sub_active b (subscription_at st i)]> st).
Definition store_balance (a : address) (v : N) : M unit :=
  write (SlotBalance a) (with_balances <[a := v]>).

(** [balances[a] += v] and [balances[a] -= v]. *)
Definition balance_add (a : address) (v : N) : M unit :=
  old ← read (fun st => balance_at st a);
  new ← pure (checked_add old v);
  store_balance a new.
Definition balance_sub (a : address) (v : N) : M unit :=
  old ← read (fun st => balance_at st a);
  new ← pure (checked_sub old v);
  store_balance a new.

(** [xs[a].push(i)] on the three index mappings. *)
Definition push_userStreams (a : address) (i : N) : M unit :=
  write (SlotUserStreams a)
    (fun st => with_userStreams <[a := userStreams_at st a ++ [i]]> st).
Definition push_recipientStreams (a : address) (i : N) : M unit :=
  write (SlotRecipientStreams a)
    (fun st => with_recipientStreams <[a := recipientStreams_at st a ++ [i]]> st).
Definition push_userSubscriptions (a : address) (i : N) : M unit :=
  write (SlotUserSubscriptions a)
    (fun st => with_userSubscriptions
                 <[a := userSubscriptions_at st a ++ [i]]> st).

(** ** The contract *)

(** State right after deployment by [deployer]. *)
Definition constructor (deployer : address) : State :=
  mkState ∅ ∅ ∅ ∅ ∅ ∅ 1 1 10 deployer NOT_ENTERED 0.

(** The functions below follow the source statement by statement.  The
    variable [stream] (resp. [sub]) of the source is a storage reference:
    a field read after an assignment sees the assigned value, so such
    reads are taken from the state again.  Only [payable] functions look
    at [msg.value]; that the other entry points are called without value
    is checked by the dispatcher in front of these bodies. *)

Definition createStream (env : Env) (recipient : address)
    (duration ratePerSecond : N) : M N :=
  receive_value env;;
  nonReentrant (
    require (negb (recipient =? 0)) "Invalid recipient";;
    require (negb (recipient =? msg_sender env)) "Cannot stream to yourself";;
    require (0 <? duration) "Duration must be > 0";;
    require (0 <? ratePerSecond) "Rate must be > 0";;
    deposit ← pure (checked_mul ratePerSecond duration);
    require (deposit <=? msg_value env) "Insufficient deposit";;
    streamId ← read nextStreamId;
    next ← pure (checked_add streamId 1);
    write SlotNextStreamId (with_nextStreamId next);;
    let startTime := block_timestamp env in
    stopTime ← pure (checked_add startTime duration);
    store_stream streamId
      (mkStream streamId (msg_sender env) recipient deposit ratePerSecond
         startTime stopTime deposit true);;
    push_userStreams (msg_sender env) streamId;;
    push_recipientStreams recipient streamId;;
    (if deposit <? msg_value env
     then excess ← pure (checked_sub (msg_value env) deposit);
          transfer (msg_sender env) excess
     else mret tt);;
    emit (StreamCreated streamId (msg_sender env) recipient deposit
            ratePerSecond startTime stopTime);;
    mret streamId).

Definition balanceOf (env : Env) (streamId : N) (st : State)
    : Checked (N * N) :=
  let stream := stream_at st streamId in
  check (negb (stream_id stream =? 0)) "Stream doesn't exist";;
  if negb (stream_active stream)
  then mret (0, stream_remainingBalance stream)
  else
    elapsedTime ←
      (if stream_stopTime stream <=? block_timestamp env
       then checked_sub (stream_stopTime stream) (stream_startTime stream)
       else checked_sub (block_timestamp env) (stream_startTime stream));
    earned ← checked_mul elapsedTime (stream_ratePerSecond stream);
    if stream_deposit stream <=? earned
    then mret (stream_remainingBalance stream, 0)
    else
      senderBalance ← checked_sub (stream_deposit stream) earned;
      mret (earned, senderBalance).

Definition withdrawFromStream (env : Env) (streamId : N) : M unit :=
  nonReentrant (
    stream ← read (fun st => stream_at st streamId);
    require (stream_recipient stream =? msg_sender env) "Not stream recipient";;
    require (stream_active stream) "Stream not active";;
    '(recipientBalance, _) ← view (balanceOf env streamId);
    require (0 <? recipientBalance) "Nothing to withdraw";;
    feeBps ← read platformFee;
    scaled ← pure (checked_mul recipientBalance feeBps);
    let fee := scaled / 10000 in
    netAmount ← pure (checked_sub recipientBalance fee);
    remaining ← pure (checked_sub (stream_remainingBalance stream)
                        recipientBalance);
    store_remainingBalance streamId remaining;;
    stream' ← read (fun st => stream_at st streamId);
    (if (stream_stopTime stream' <=? block_timestamp env)
        || (stream_remainingBalance stream' =? 0)
     then store_stream_active streamId false
     else mret tt);;
    o ← read owner;
    balance_add o fee;;
    transfer (msg_sender env) netAmount;;
    emit (StreamWithdrawn streamId (msg_sender env) netAmount)).

Definition cancelStream (env : Env) (streamId : N) : M unit :=
  nonReentrant (
    stream ← read (fun st => stream_at st streamId);
    require ((stream_sender stream =? msg_sender env)
             || (stream_recipient stream =? msg_sender env))
      "Not authorized";;
    require (stream_active stream) "Stream not active";;
    '(recipientBalance, senderBalance) ← view (balanceOf env streamId);
    store_stream_active streamId false;;
    store_remainingBalance streamId 0;;
    (if 0 <? recipientBalance
     then
       feeBps ← read platformFee;
       scaled ← pure (checked_mul recipientBalance feeBps);
       let fee := scaled / 10000 in
       netAmount ← pure (checked_sub recipientBalance fee);
       o ← read owner;
       balance_add o fee;;
       transfer (stream_recipient stream) netAmount
     else mret tt);;
    (if 0 <? senderBalance
     then transfer (stream_sender stream) senderBalance
     else mret tt);;
    emit (StreamCancelled streamId (stream_sender stream)
            (stream_recipient stream) senderBalance recipientBalance)).

Definition createSubscription (env : Env) (provider : address)
    (ratePerSecond : N) : M N :=
  receive_value env;;
  nonReentrant (
    require (negb (provider =? 0)) "Invalid provider";;
    require (negb (provider =? msg_sender env)) "Cannot subscribe to yourself";;
    require (0 <? ratePerSecond) "Rate must be > 0";;
    require (0 <? msg_value env) "Must deposit funds";;
    subscriptionId ← read nextSubscriptionId;
    next ← pure (checked_add subscriptionId 1);
    write SlotNextSubscriptionId (with_nextSubscriptionId next);;
    store_subscription subscriptionId
      (mkSubscription subscriptionId (msg_sender env) provider ratePerSecond
         (block_timestamp env) true);;
    push_userSubscriptions (msg_sender env) subscriptionId;;
    balance_add (msg_sender env) (msg_value env);;
    emit (SubscriptionCreated subscriptionId (msg_sender env) provider
            ratePerSecond);;
    mret subscriptionId).

Definition processSubscriptionPayment (env : Env) (subscriptionId : N)
    : M unit :=
  nonReentrant (
    sub ← read (fun st => subscription_at st subscriptionId);
    require (sub_active sub) "Subscription not active";;
    elapsedTime ← pure (checked_sub (block_timestamp env)
                          (sub_lastPaymentTime sub));
    payment ← pure (checked_mul elapsedTime (sub_ratePerSecond sub));
    held ← read (fun st => balance_at st (sub_subscriber sub));
    require (payment <=? held) "Insufficient balance";;
    balance_sub (sub_subscriber sub) payment;;
    feeBps ← read platformFee;
    scaled ← pure (checked_mul payment feeBps);
    let fee := scaled / 10000 in
    netPayment ← pure (checked_sub payment fee);
    o ← read owner;
    balance_add o fee;;
    transfer (sub_provider sub) netPayment;;
    store_lastPaymentTime subscriptionId (block_timestamp env);;
    emit (SubscriptionPayment subscriptionId (sub_subscriber sub)
            (sub_provider sub) netPayment)).

Definition cancelSubscription (env : Env) (subscriptionId : N) : M unit :=
  nonReentrant (
    sub ← read (fun st => subscription_at st subscriptionId);
    require ((sub_subscriber sub =? msg_sender env)
             || (sub_provider sub =? msg_sender env)) "Not authorized";;
    require (sub_active sub) "Already cancelled";;
    held ← read (fun st => balance_at st (sub_subscriber sub));
    (if 0 <? held
     then
       elapsedTime ← pure (checked_sub (block_timestamp env)
                             (sub_lastPaymentTime sub));
       payment ← pure (checked_mul elapsedTime (sub_ratePerSecond sub));
       if (0 <? payment) && (payment <=? held)
       then
         balance_sub (sub_subscriber sub) payment;;
         feeBps ← read platformFee;
         scaled ← pure (checked_mul payment feeBps);
         let fee := scaled / 10000 in
         netPayment ← pure (checked_sub payment fee);
         o ← read owner;
         balance_add o fee;;
         transfer (sub_provider sub) netPayment
       else mret tt
     else mret tt);;
    store_sub_active subscriptionId false;;
    emit (SubscriptionCancelled subscriptionId (sub_subscriber sub))).

Definition topUpSubscription (env : Env) (subscriptionId : N) : M unit :=
  receive_value env;;
  sub ← read (fun st => subscription_at st subscriptionId);
  require (sub_subscriber sub =? msg_sender env) "Not subscriber";;
  require (sub_active sub) "Subscription not active";;
  require (0 <? msg_value env) "Must send ETH";;
  balance_add (msg_sender env) (msg_value env).

Definition withdraw (env : Env) : M unit :=
  nonReentrant (
    balance ← read (fun st => balance_at st (msg_sender env));
    require (0 <? balance) "No balance";;
    store_balance (msg_sender env) 0;;
    transfer (msg_sender env) balance).

Definition getUserStreams (user : address) (st : State) : Checked (list N) :=
  mret (userStreams_at st user).

Definition getRecipientStreams (recipient : address) (st : State)
    : Checked (list N) :=
  mret (recipientStreams_at st recipient).

Definition getUserSubscriptions (user : address) (st : State)
    : Checked (list N) :=
  mret (userSubscriptions_at st user).

Definition getStream (streamId : N) (st : State)
    : Checked (address * address * N * N * N * N * N * bool) :=
  let stream := stream_at st streamId in
  mret (stream_sender stream, stream_recipient stream, stream_deposit stream,
        stream_ratePerSecond stream, stream_startTime stream,
        stream_stopTime stream, stream_remainingBalance stream,
        stream_active stream).

Definition getSubscription (env : Env) (subscriptionId : N) (st : State)
    : Checked (address * address * N * N * bool * N) :=
  let sub := subscription_at st subscriptionId in
  elapsedTime ← checked_sub (block_timestamp env) (sub_lastPaymentTime sub);
  pending ← checked_mul elapsedTime (sub_ratePerSecond sub);
  mret (sub_subscriber sub, sub_provider sub, sub_ratePerSecond sub,
        sub_lastPaymentTime sub, sub_active sub, pending).

Definition setPlatformFee (env : Env) (newFee : N) : M unit :=
  onlyOwner env (
    require (newFee <=? 1000) "Fee too high";;
    write SlotPlatformFee (with_platformFee newFee)).

(** The two functions the contract inherits from Ownable. *)
Definition transferOwnership (env : Env) (newOwner : address) : M unit :=
  onlyOwner env (
    (if newOwner =? 0
     then pure (Bad (CustomError "OwnableInvalidOwner"))
     else mret tt);;
    oldOwner ← read owner;
    write SlotOwner (with_owner newOwner);;
    emit (OwnershipTransferred oldOwner newOwner)).

Definition renounceOwnership (env : Env) : M unit :=
  onlyOwner env (
    oldOwner ← read owner;
    write SlotOwner (with_owner 0);;
    emit (OwnershipTransferred oldOwner 0)).

(** ** Transactions and reachable states *)

Inductive Call : Type :=
| CallCreateStream (recipient : address) (duration ratePerSecond : N)
| CallWithdrawFromStream (streamId : N)
| CallCancelStream (streamId : N)
| CallCreateSubscription (provider : address) (ratePerSecond : N)
| CallProcessSubscriptionPayment (subscriptionId : N)
| CallCancelSubscription (subscriptionId : N)
| CallTopUpSubscription (subscriptionId : N)
| CallWithdraw
| CallSetPlatformFee (newFee : N)
| CallTransferOwnership (newOwner : address)
| CallRenounceOwnership.

Definition ignore {A : Type} (m : M A) : M unit := m;; mret tt.

Definition dispatch (env : Env) (c : Call) : M unit :=
  match c with
  | CallCreateStream r d rate => ignore (createStream env r d rate)
  | CallWithdrawFromStream i => withdrawFromStream env i
  | CallCancelStream i => cancelStream env i
  | CallCreateSubscription p rate => ignore (createSubscription env p rate)
  | CallProcessSubscriptionPayment i => processSubscriptionPayment env i
  | CallCancelSubscription i => cancelSubscription env i
  | CallTopUpSubscription i => topUpSubscription env i
  | CallWithdraw => withdraw env
  | CallSetPlatformFee f => setPlatformFee env f
  | CallTransferOwnership a => transferOwnership env a
  | CallRenounceOwnership => renounceOwnership env
  end.

(** One transaction: the state after the call, unchanged on a revert. *)
Definition step (env : Env) (c : Call) (st : State) : State :=
  fst (run (dispatch env c) st).


(** The contract after a history of transactions whose block timestamps
    never decrease; the index is the timestamp of the latest block. *)
Inductive reachable : N -> State -> Prop :=
| reachable_deploy (deployer : address) (t : N) :
    reachable t (constructor deployer)
| reachable_step (t : N) (st : State) (env : Env) (c : Call) :
    reachable t st ->
    t <= block_timestamp env ->
    reachable (block_timestamp env) (step env c st).

(** ** Observations on a trace *)

(** The value transfers of a trace, in order. *)
Fixpoint transfers (tr : list Event) : list (address * N) :=
  match tr with
  | [] => []
  | EvTransfer to amount :: rest => (to, amount) :: transfers rest
  | _ :: rest => transfers rest
  end.




(** The time a stream has run at [now], as [balanceOf] computes it. *)
Definition elapsed_at (s : Stream) (now : N) : N :=
  if stream_stopTime s <=? now
  then stream_stopTime s - stream_startTime s
  else now - stream_startTime s.

(** ** Well-formed states *)

Record stream_ok (next i : N) (s : Stream) : Prop := {
  stream_ok_alloc : 1 <= i < next;
  stream_ok_id : stream_id s = i;
  stream_ok_span : stream_startTime s <= stream_stopTime s;
  stream_ok_deposit :
    stream_deposit s =
    stream_ratePerSecond s * (stream_stopTime s - stream_startTime s);
  stream_ok_range : stream_deposit s <= MAX_UINT256;
  stream_ok_remaining : stream_remainingBalance s <= stream_deposit s
}.

Record subscription_ok (next i : N) (s : Subscription) : Prop := {
  subscription_ok_alloc : 1 <= i < next;
  subscription_ok_id : sub_id s = i
}.

Record wf (st : State) : Prop := {
  wf_guard : guard_status st = NOT_ENTERED;
  wf_nextStreamId : 1 <= nextStreamId st;
  wf_nextSubscriptionId : 1 <= nextSubscriptionId st;
  wf_streams :
    forall i s, streams st !! i = Some s -> stream_ok (nextStreamId st) i s;
  wf_subscriptions :
    forall i s, subscriptions st !! i = Some s ->
                subscription_ok (nextSubscriptionId st) i s;
  wf_balances : forall a v, balances st !! a = Some v -> v <= MAX_UINT256;
  wf_fee : platformFee st <= 1000
}.

(** No stored start time or last payment time lies after [t]. *)
Record timely (t : N) (st : State) : Prop := {
  timely_streams :
    forall i s, streams st !! i = Some s -> stream_startTime s <= t;
  timely_subscriptions :
    forall i s, subscriptions st !! i = Some s -> sub_lastPaymentTime s <= t
}.

(** Every id below the next one holds a record; a stream that is no
    longer active holds nothing, and an active one holds something. *)
Record settled (st : State) : Prop := {
  settled_streams :
    forall i, 1 <= i < nextStreamId st -> is_Some (streams st !! i);
  settled_subscriptions :
    forall i, 1 <= i < nextSubscriptionId st ->
              is_Some (subscriptions st !! i);
  settled_inactive :
    forall i s, streams st !! i = Some s -> stream_active s = false ->
                stream_remainingBalance s = 0;
  settled_active :
    forall i s, streams st !! i = Some s -> stream_active s = true ->
                0 < stream_remainingBalance s
}.

(** The index lists hold exactly the ids of the records they are about,
    in increasing order. *)
Record indexed (st : State) : Prop := {
  indexed_user :
    forall a i, i ∈ userStreams_at st a <->
                stream_sender <$> streams st !! i = Some a;
  indexed_recipient :
    forall a i, i ∈ recipientStreams_at st a <->
                stream_recipient <$> streams st !! i = Some a;
  indexed_subscriber :
    forall a i, i ∈ userSubscriptions_at st a <->
                sub_subscriber <$> subscriptions st !! i = Some a;
  indexed_user_sorted :
    forall a, StronglySorted N.lt (userStreams_at st a);
  indexed_recipient_sorted :
    forall a, StronglySorted N.lt (recipientStreams_at st a);
  indexed_subscriber_sorted :
    forall a, StronglySorted N.lt (userSubscriptions_at st a)
}.

(** The fields of a stream that no function assigns after creation. *)
Definition same_stream_terms (s s' : Stream) : Prop :=
  stream_id s' = stream_id s /\
  stream_sender s' = stream_sender s /\
  stream_recipient s' = stream_recipient s /\
  stream_deposit s' = stream_deposit s /\
  stream_ratePerSecond s' = stream_ratePerSecond s /\
  stream_startTime s' = stream_startTime s /\
  stream_stopTime s' = stream_stopTime s.

(** How a stored stream can change: its terms stay, its remaining
    balance does not grow, and it is not activated again. *)
Definition stream_evolves (s s' : Stream) : Prop :=
  same_stream_terms s s' /\
  stream_remainingBalance s' <= stream_remainingBalance s /\
  (stream_active s' = true -> stream_active s = true).

(** How a stored subscription can change: its parties and rate stay,
    its last payment time does not go back, and it is not activated
    again. *)
Definition subscription_evolves (s s' : Subscription) : Prop :=
  sub_id s' = sub_id s /\
  sub_subscriber s' = sub_subscriber s /\
  sub_provider s' = sub_provider s /\
  sub_ratePerSecond s' = sub_ratePerSecond s /\
  sub_lastPaymentTime s <= sub_lastPaymentTime s' /\
  (sub_active s' = true -> sub_active s = true).

(** The terms under which [createStream] and [createSubscription]
    accept a request. *)
Record stream_terms_ok (s : Stream) : Prop := {
  terms_recipient : stream_recipient s <> 0;
  terms_parties : stream_recipient s <> stream_sender s;
  terms_rate : 0 < stream_ratePerSecond s;
  terms_span : stream_startTime s < stream_stopTime s
}.

Record subscription_terms_ok (s : Subscription) : Prop := {
  terms_provider : sub_provider s <> 0;
  terms_subscriber : sub_provider s <> sub_subscriber s;
  terms_sub_rate : 0 < sub_ratePerSecond s
}.

(** Every stored record was accepted under these terms. *)
Record lawful (st : State) : Prop := {
  lawful_streams :
    forall i s, streams st !! i = Some s -> stream_terms_ok s;
  lawful_subscriptions :
    forall i s, subscriptions st !! i = Some s -> subscription_terms_ok s
}.

(** ** The stream form of the front end

    [createStream] of frontend/src/App.jsx turns the form's amount,
    duration and unit into the arguments and the value of the contract
    call.  The amount is taken as [ethers.parseEther] returns it (wei)
    and the duration as [parseInt] returns it, a non-negative integer;
    the division is the one of [BigInt], which throws on a zero
    divisor. *)

Definition durationInSeconds (duration : N) (durationType : string) : N :=
  if String.eqb durationType "hours" then duration * 3600
  else if String.eqb durationType "days" then duration * 86400
  else if String.eqb durationType "months" then duration * 2592000
  else duration.

(** The request sent to the contract: recipient, duration, rate and
    attached value; [None] where the division throws. *)
Record StreamRequest : Type := mkStreamRequest {
  req_recipient : address;
  req_duration : N;
  req_ratePerSecond : N;
  req_value : N
}.

Definition streamRequest (recipient : address) (totalAmount duration : N)
    (durationType : string) : option StreamRequest :=
  let seconds := durationInSeconds duration durationType in
  if seconds =? 0 then None
  else Some (mkStreamRequest recipient seconds (totalAmount / seconds)
               totalAmount).

(** The contract call the form makes for a request. *)
Definition submit (env : Env) (q : StreamRequest) : M N :=
  createStream (mkEnv (msg_sender env) (req_value q) (block_timestamp env))
    (req_recipient q) (req_duration q) (req_ratePerSecond q).

(** ** Scenarios used as concrete instances *)

Module Scenario.

Definition deployer : address := 1.
Definition alice : address := 100.
Definition bob : address := 200.

(** alice streams 3600 units to bob at 1 unit per second from time
    1000. *)
Definition streaming : State :=
  step (mkEnv alice 3600 1000) (CallCreateStream bob 3600 1)
    (constructor deployer).

(** bob has withdrawn once, 1000 seconds into the stream. *)
Definition withdrawn_once : State :=
  step (mkEnv bob 0 2000) (CallWithdrawFromStream 1) streaming.

(** alice subscribes to bob at 5 units per second, funded with 100. *)
Definition subscribed : State :=
  step (mkEnv alice 100 1000) (CallCreateSubscription bob 5)
    (constructor deployer).

(** alice subscribes to bob at 2^255 units per second, funded with 1. *)
Definition oversubscribed : State :=
  step (mkEnv alice 1 1000) (CallCreateSubscription bob (2 ^ 255))
    (constructor deployer).

(** bob has drained the stream at its stop time. *)
Definition drained : State :=
  step (mkEnv bob 0 4600) (CallWithdrawFromStream 1) streaming.

(** alice has cancelled her subscription after 10 seconds. *)
Definition unsubscribed : State :=
  step (mkEnv alice 0 1010) (CallCancelSubscription 1) subscribed.

(** The record stored for alice's stream. *)
Definition stream1 : Stream :=
  mkStream 1 alice bob 3600 1 1000 4600 3600 true.

(** The record stored for alice's subscription. *)
Definition subscription1 : Subscription :=
  mkSubscription 1 alice bob 5 1000 true.

End Scenario.

(** * Reasoning support *)

Lemma checked_add_Good a b v :
  checked_add a b = Good v <-> v = a + b /\ a + b <= MAX_UINT256.
Proof.
  unfold checked_add. destruct (N.leb_spec (a + b) MAX_UINT256).
  - split; [intros [= <-]; auto | intros [-> _]; reflexivity].
  - split; [discriminate | intros [_ ?]; lia].
Qed.

Lemma checked_sub_Good a b v :
  checked_sub a b = Good v <-> v = a - b /\ b <= a.
Proof.
  unfold checked_sub. destruct (N.leb_spec b a).
  - split; [intros [= <-]; auto | intros [-> _]; reflexivity].
  - split; [discriminate | intros [_ ?]; lia].
Qed.

Lemma checked_mul_Good a b v :
  checked_mul a b = Good v <-> v = a * b /\ a * b <= MAX_UINT256.
Proof.
  unfold checked_mul. destruct (N.leb_spec (a * b) MAX_UINT256).
  - split; [intros [= <-]; auto | intros [-> _]; reflexivity].
  - split; [discriminate | intros [_ ?]; lia].
Qed.

Lemma checked_add_Bad a b f :
  checked_add a b = Bad f <-> f = Panic ARITHMETIC /\ MAX_UINT256 < a + b.
Proof.
  unfold checked_add. destruct (N.leb_spec (a + b) MAX_UINT256).
  - split; [discriminate | intros [_ ?]; lia].
  - split; [intros [= <-]; auto | intros [-> _]; reflexivity].
Qed.

Lemma checked_sub_Bad a b f :
  checked_sub a b = Bad f <-> f = Panic ARITHMETIC /\ a < b.
Proof.
  unfold checked_sub. destruct (N.leb_spec b a).
  - split; [discriminate | intros [_ ?]; lia].
  - split; [intros [= <-]; auto | intros [-> _]; reflexivity].
Qed.

Lemma checked_mul_Bad a b f :
  checked_mul a b = Bad f <-> f = Panic ARITHMETIC /\ MAX_UINT256 < a * b.
Proof.
  unfold checked_mul. destruct (N.leb_spec (a * b) MAX_UINT256).
  - split; [discriminate | intros [_ ?]; lia].
  - split; [intros [= <-]; auto | intros [-> _]; reflexivity].
Qed.

Lemma checked_add_ok a b :
  a + b <= MAX_UINT256 -> checked_add a b = Good (a + b).
Proof. intros. apply checked_add_Good. auto. Qed.

Lemma checked_sub_ok a b : b <= a -> checked_sub a b = Good (a - b).
Proof. intros. apply checked_sub_Good. auto. Qed.

Lemma checked_mul_ok a b :
  a * b <= MAX_UINT256 -> checked_mul a b = Good (a * b).
Proof. intros. apply checked_mul_Good. auto. Qed.

Lemma balanceOf_guard env i g st :
  balanceOf env i (with_guard_status g st) = balanceOf env i st.
Proof. reflexivity. Qed.

Ltac unfold_M :=
  cbv [mbind mret M_bind M_ret pure view read require check write emit transfer
       receive_value nonReentrant onlyOwner store_stream store_remainingBalance
       store_stream_active store_subscription store_lastPaymentTime
       store_sub_active store_balance balance_add balance_sub push_userStreams
       push_recipientStreams push_userSubscriptions ignore] in *.

Ltac simp_state :=
  cbn [streams subscriptions userStreams recipientStreams userSubscriptions
       balances nextStreamId nextSubscriptionId platformFee owner guard_status
       this_balance with_streams with_subscriptions with_userStreams
       with_recipientStreams with_userSubscriptions with_balances
       with_nextStreamId with_nextSubscriptionId with_platformFee with_owner
       with_guard_status with_this_balance] in *.

(** Mapping reads, brought to lookups in the maps of the initial state. *)
Ltac simp_reads :=
  unfold stream_at, subscription_at, balance_at, userStreams_at,
    recipientStreams_at, userSubscriptions_at in *;
  simp_state;
  rewrite ?lookup_insert_eq in *;
  cbn [default from_option id set_remainingBalance set_stream_active
       set_lastPaymentTime set_sub_active stream_id stream_sender
       stream_recipient stream_deposit stream_ratePerSecond stream_startTime
       stream_stopTime stream_remainingBalance stream_active sub_id
       sub_subscriber sub_provider sub_ratePerSecond sub_lastPaymentTime
       sub_active] in *.

(** One case split on the next test of an unfolded function body. *)
Ltac step_M H :=
  rewrite ?balanceOf_guard in H;
  match type of H with
  | context [match guard_status ?s with _ => _ end] =>
      destruct (guard_status s) eqn:?
  | context [match ?x with Good _ => _ | Bad _ => _ end] =>
      lazymatch x with
      | checked_add _ _ => destruct x eqn:?
      | checked_sub _ _ => destruct x eqn:?
      | checked_mul _ _ => destruct x eqn:?
      | balanceOf _ _ _ => destruct x as [[? ?]|] eqn:?
      end
  | context [if ?b then _ else _] => destruct b eqn:?
  end; cbn beta iota in H; simp_state; try discriminate.

(** All paths through a function body, one goal per path. *)
Ltac walk_M H := unfold_M; simp_state; repeat step_M H; cbn [app] in H.

(** Lookups after writes, decided by comparing the keys. *)
Ltac simp_lookups :=
  rewrite ?lookup_insert in *; repeat case_decide; simplify_eq;
  cbn [default from_option id] in *.

(** Run a function body to its end on a hypothesis that it succeeded. *)
Ltac exec_M H :=
  unfold_M; simp_state; repeat step_M H; cbn [app] in H;
  injection H as <- <-.

(** Turn the recorded tests into arithmetic facts. *)
Ltac facts :=
  repeat match goal with
  | H : checked_add _ _ = Good _ |- _ =>
      apply checked_add_Good in H; destruct H as [-> ?]
  | H : checked_sub _ _ = Good _ |- _ =>
      apply checked_sub_Good in H; destruct H as [-> ?]
  | H : checked_mul _ _ = Good _ |- _ =>
      apply checked_mul_Good in H; destruct H as [-> ?]
  | H : checked_add _ _ = Bad _ |- _ =>
      apply checked_add_Bad in H; destruct H as [-> ?]
  | H : checked_sub _ _ = Bad _ |- _ =>
      apply checked_sub_Bad in H; destruct H as [-> ?]
  | H : checked_mul _ _ = Bad _ |- _ =>
      apply checked_mul_Bad in H; destruct H as [-> ?]
  | H : (_ || _)%bool = true |- _ => apply orb_true_iff in H
  | H : (_ || _)%bool = false |- _ =>
      apply orb_false_iff in H; destruct H
  | H : (_ && _)%bool = true |- _ =>
      apply andb_true_iff in H; destruct H
  | H : (_ && _)%bool = false |- _ => apply andb_false_iff in H
  | H : negb _ = true |- _ => apply negb_true_iff in H
  | H : negb _ = false |- _ => apply negb_false_iff in H
  | H : (_ =? _) = true |- _ => apply N.eqb_eq in H
  | H : (_ =? _) = false |- _ => apply N.eqb_neq in H
  | H : (_ <=? _) = true |- _ => apply N.leb_le in H
  | H : (_ <=? _) = false |- _ => apply N.leb_gt in H
  | H : (_ <? _) = true |- _ => apply N.ltb_lt in H
  | H : (_ <? _) = false |- _ => apply N.ltb_ge in H
  end.

(** The same, going through the alternatives the tests leave open. *)
Ltac cases :=
  facts; repeat match goal with H : _ \/ _ |- _ => destruct H end; facts.

Lemma fee_le gross feeBps :
  feeBps <= 10000 -> gross * feeBps / 10000 <= gross.
Proof. intros. apply N.Div0.div_le_upper_bound. nia. Qed.

(** * Invariants of the reachable states *)

Lemma stream_ok_next n n' i s :
  n <= n' -> stream_ok n i s -> stream_ok n' i s.
Proof. intros Hn [[] ? ? ? ? ?]. split; auto. lia. Qed.

Lemma stream_ok_set_active n i b s :
  stream_ok n i s -> stream_ok n i (set_stream_active b s).
Proof. intros []. split; auto. Qed.

Lemma stream_ok_set_remaining n i v s :
  v <= stream_deposit s -> stream_ok n i s ->
  stream_ok n i (set_remainingBalance v s).
Proof. intros ? []. split; auto. Qed.

Lemma subscription_ok_next n n' i s :
  n <= n' -> subscription_ok n i s -> subscription_ok n' i s.
Proof. intros Hn [[] ?]. split; auto. lia. Qed.

Lemma subscription_ok_set_active n i b s :
  subscription_ok n i s -> subscription_ok n i (set_sub_active b s).
Proof. intros []. split; auto. Qed.

Lemma subscription_ok_set_last n i v s :
  subscription_ok n i s -> subscription_ok n i (set_lastPaymentTime v s).
Proof. intros []. split; auto. Qed.

(** An active record is a stored one. *)
Ltac stored :=
  repeat match goal with
  | H : context [streams ?st !! ?i] |- _ =>
      lazymatch goal with
      | _ : streams st !! i = Some _ |- _ => fail
      | _ => destruct (streams st !! i) eqn:?; [|discriminate]
      end
  | H : context [subscriptions ?st !! ?i] |- _ =>
      lazymatch goal with
      | _ : subscriptions st !! i = Some _ |- _ => fail
      | _ => destruct (subscriptions st !! i) eqn:?; [|discriminate]
      end
  end.

Ltac solve_wf :=
  let Hg := fresh "Hg" in
  let Hn1 := fresh "Hn" in
  let Hn2 := fresh "Hn" in
  let Hs := fresh "Hs" in
  let Hsub := fresh "Hsub" in
  let Hb := fresh "Hb" in
  let Hf := fresh "Hf" in
  match goal with
  | Hw : wf _ |- _ => destruct Hw as [Hg Hn1 Hn2 Hs Hsub Hb Hf]
  end;
  repeat match goal with
  | H : streams _ !! _ = Some _ |- _ =>
      let K := fresh in pose proof (Hs _ _ H) as K; destruct K; revert H
  end; intros;
  repeat match goal with
  | H : subscriptions _ !! _ = Some _ |- _ =>
      let K := fresh in pose proof (Hsub _ _ H) as K; destruct K; revert H
  end; intros;
  split; simp_state;
  [ first [reflexivity | assumption]
  | lia
  | lia
  | let Hl := fresh "Hl" in
    intros ? ? Hl; rewrite ?lookup_insert in Hl; repeat case_decide;
    simplify_eq;
    repeat first [ apply stream_ok_set_active
                 | apply stream_ok_set_remaining; [lia|] ];
    try (split; cbn; first [lia | f_equal; lia]);
    try (eapply stream_ok_next; [|eauto]; lia)
  | let Hl := fresh "Hl" in
    intros ? ? Hl; rewrite ?lookup_insert in Hl; repeat case_decide;
    simplify_eq;
    repeat first [ apply subscription_ok_set_active
                 | apply subscription_ok_set_last ];
    try (split; cbn; lia);
    try (eapply subscription_ok_next; [|eauto]; lia)
  | let Hl := fresh "Hl" in
    intros ? ? Hl; rewrite ?lookup_insert in *; repeat case_decide;
    simplify_eq; cbn [default from_option id] in *; eauto;
    repeat match goal with
    | |- context [balances ?st !! ?a] =>
        lazymatch goal with
        | _ : default 0 (balances st !! a) <= MAX_UINT256 |- _ => fail
        | _ =>
            assert (default 0 (balances st !! a) <= MAX_UINT256)
              by (destruct (balances st !! a) eqn:?; cbn;
                  [eauto | apply N.le_0_l])
        end
    end;
    try lia; try (etrans; [apply N.le_sub_l|]; lia)
  | try assumption; try lia ].

Ltac run_wf f :=
  let H := fresh "H" in
  intros H Hw; unfold f in H; exec_M H; simp_reads; stored; cbn in *; facts;
  solve_wf.

Lemma withdrawFromStream_wf env i st st' tr :
  withdrawFromStream env i st = Ok tt st' tr -> wf st -> wf st'.
Proof. run_wf withdrawFromStream. Qed.

Lemma cancelStream_wf env i st st' tr :
  cancelStream env i st = Ok tt st' tr -> wf st -> wf st'.
Proof. run_wf cancelStream. Qed.

Lemma createStream_wf env r d rate st a st' tr :
  createStream env r d rate st = Ok a st' tr -> wf st -> wf st'.
Proof. run_wf createStream. Qed.

Lemma createSubscription_wf env p rate st a st' tr :
  createSubscription env p rate st = Ok a st' tr -> wf st -> wf st'.
Proof. run_wf createSubscription. Qed.

Lemma processSubscriptionPayment_wf env i st st' tr :
  processSubscriptionPayment env i st = Ok tt st' tr -> wf st -> wf st'.
Proof. run_wf processSubscriptionPayment. Qed.

Lemma cancelSubscription_wf env i st st' tr :
  cancelSubscription env i st = Ok tt st' tr -> wf st -> wf st'.
Proof. run_wf cancelSubscription. Qed.

Lemma topUpSubscription_wf env i st st' tr :
  topUpSubscription env i st = Ok tt st' tr -> wf st -> wf st'.
Proof. run_wf topUpSubscription. Qed.

Lemma withdraw_wf env st st' tr :
  withdraw env st = Ok tt st' tr -> wf st -> wf st'.
Proof. run_wf withdraw. Qed.

Lemma setPlatformFee_wf env f st st' tr :
  setPlatformFee env f st = Ok tt st' tr -> wf st -> wf st'.
Proof. run_wf setPlatformFee. Qed.

Lemma transferOwnership_wf env a st st' tr :
  transferOwnership env a st = Ok tt st' tr -> wf st -> wf st'.
Proof. run_wf transferOwnership. Qed.

Lemma renounceOwnership_wf env st st' tr :
  renounceOwnership env st = Ok tt st' tr -> wf st -> wf st'.
Proof. run_wf renounceOwnership. Qed.

Lemma constructor_wf deployer : wf (constructor deployer).
Proof.
  split; cbn; try reflexivity; try lia; intros ? ? Hl;
    rewrite lookup_empty in Hl; discriminate.
Qed.

Lemma ignore_Ok {A : Type} (m : M A) st st' tr :
  ignore m st = Ok tt st' tr -> exists a, m st = Ok a st' tr.
Proof.
  unfold ignore. unfold_M. destruct (m st) as [a s t|]; [|discriminate].
  rewrite app_nil_r. intros [= <- <-]. eauto.
Qed.

Lemma dispatch_wf env c st st' tr :
  dispatch env c st = Ok tt st' tr -> wf st -> wf st'.
Proof.
  destruct c; cbn [dispatch]; intros H;
    try (apply ignore_Ok in H; destruct H as [a H]);
    eauto using createStream_wf, withdrawFromStream_wf, cancelStream_wf,
      createSubscription_wf, processSubscriptionPayment_wf,
      cancelSubscription_wf, topUpSubscription_wf, withdraw_wf,
      setPlatformFee_wf, transferOwnership_wf, renounceOwnership_wf.
Qed.

Lemma step_wf env c st : wf st -> wf (step env c st).
Proof.
  intros Hw. unfold step, run.
  destruct (dispatch env c st) as [[] st' tr|] eqn:H; cbn; [|assumption].
  eapply dispatch_wf; eauto.
Qed.


Lemma timely_mono t t' st : t <= t' -> timely t st -> timely t' st.
Proof.
  intros Hle [Hs Hsub]. split; intros i s Hl.
  - specialize (Hs i s Hl). lia.
  - specialize (Hsub i s Hl). lia.
Qed.

Ltac solve_timely :=
  let Hs := fresh "Hs" in
  let Hsub := fresh "Hsub" in
  match goal with
  | Ht : timely _ _ |- _ => destruct Ht as [Hs Hsub]
  end;
  split; simp_state;
  let Hl := fresh "Hl" in
  intros ? ? Hl; rewrite ?lookup_insert in Hl; repeat case_decide;
  simplify_eq; cbn;
  repeat match goal with
  | H : streams _ !! _ = Some _ |- _ => apply Hs in H
  | H : subscriptions _ !! _ = Some _ |- _ => apply Hsub in H
  end; lia.

Ltac run_timely f :=
  let H := fresh "H" in
  intros H Ht Hle; unfold f in H; exec_M H; simp_reads; stored; cbn in *;
  solve_timely.

Lemma createStream_timely env r d rate st a st' tr t :
  createStream env r d rate st = Ok a st' tr ->
  timely t st -> t <= block_timestamp env -> timely (block_timestamp env) st'.
Proof. run_timely createStream. Qed.

Lemma withdrawFromStream_timely env i st st' tr t :
  withdrawFromStream env i st = Ok tt st' tr ->
  timely t st -> t <= block_timestamp env -> timely (block_timestamp env) st'.
Proof. run_timely withdrawFromStream. Qed.

Lemma cancelStream_timely env i st st' tr t :
  cancelStream env i st = Ok tt st' tr ->
  timely t st -> t <= block_timestamp env -> timely (block_timestamp env) st'.
Proof. run_timely cancelStream. Qed.

Lemma createSubscription_timely env p rate st a st' tr t :
  createSubscription env p rate st = Ok a st' tr ->
  timely t st -> t <= block_timestamp env -> timely (block_timestamp env) st'.
Proof. run_timely createSubscription. Qed.

Lemma processSubscriptionPayment_timely env i st st' tr t :
  processSubscriptionPayment env i st = Ok tt st' tr ->
  timely t st -> t <= block_timestamp env -> timely (block_timestamp env) st'.
Proof. run_timely processSubscriptionPayment. Qed.

Lemma cancelSubscription_timely env i st st' tr t :
  cancelSubscription env i st = Ok tt st' tr ->
  timely t st -> t <= block_timestamp env -> timely (block_timestamp env) st'.
Proof. run_timely cancelSubscription. Qed.

Lemma topUpSubscription_timely env i st st' tr t :
  topUpSubscription env i st = Ok tt st' tr ->
  timely t st -> t <= block_timestamp env -> timely (block_timestamp env) st'.
Proof. run_timely topUpSubscription. Qed.

Lemma withdraw_timely env st st' tr t :
  withdraw env st = Ok tt st' tr ->
  timely t st -> t <= block_timestamp env -> timely (block_timestamp env) st'.
Proof. run_timely withdraw. Qed.

Lemma setPlatformFee_timely env f st st' tr t :
  setPlatformFee env f st = Ok tt st' tr ->
  timely t st -> t <= block_timestamp env -> timely (block_timestamp env) st'.
Proof. run_timely setPlatformFee. Qed.

Lemma transferOwnership_timely env a st st' tr t :
  transferOwnership env a st = Ok tt st' tr ->
  timely t st -> t <= block_timestamp env -> timely (block_timestamp env) st'.
Proof. run_timely transferOwnership. Qed.

Lemma renounceOwnership_timely env st st' tr t :
  renounceOwnership env st = Ok tt st' tr ->
  timely t st -> t <= block_timestamp env -> timely (block_timestamp env) st'.
Proof. run_timely renounceOwnership. Qed.

Lemma dispatch_timely env c st st' tr t :
  dispatch env c st = Ok tt st' tr ->
  timely t st -> t <= block_timestamp env -> timely (block_timestamp env) st'.
Proof.
  destruct c; cbn [dispatch]; intros H;
    try (apply ignore_Ok in H; destruct H as [a H]);
    eauto using createStream_timely, withdrawFromStream_timely,
      cancelStream_timely, createSubscription_timely,
      processSubscriptionPayment_timely, cancelSubscription_timely,
      topUpSubscription_timely, withdraw_timely, setPlatformFee_timely,
      transferOwnership_timely, renounceOwnership_timely.
Qed.

Lemma step_timely env c st t :
  timely t st -> t <= block_timestamp env ->
  timely (block_timestamp env) (step env c st).
Proof.
  intros Ht Hle. unfold step, run.
  destruct (dispatch env c st) as [[] st' tr|] eqn:H; cbn.
  - eapply dispatch_timely; eauto.
  - eapply timely_mono; eauto.
Qed.

Lemma constructor_timely deployer t : timely t (constructor deployer).
Proof.
  split; cbn; intros ? ? Hl; rewrite lookup_empty in Hl; discriminate.
Qed.

Lemma reachable_wf t st : reachable t st -> wf st.
Proof.
  induction 1; auto using constructor_wf, step_wf.
Qed.

Lemma reachable_timely t st : reachable t st -> timely t st.
Proof.
  induction 1; [apply constructor_timely | eapply step_timely; eauto].
Qed.
















(** * The scenarios *)

Lemma streaming_reachable : reachable 1000 Scenario.streaming.
Proof.
  apply (reachable_step 0 (constructor Scenario.deployer)
           (mkEnv Scenario.alice 3600 1000)
           (CallCreateStream Scenario.bob 3600 1)).
  - apply reachable_deploy.
  - vm_compute. discriminate.
Qed.

Lemma withdrawn_once_reachable : reachable 2000 Scenario.withdrawn_once.
Proof.
  apply (reachable_step 1000 Scenario.streaming
           (mkEnv Scenario.bob 0 2000) (CallWithdrawFromStream 1)).
  - apply streaming_reachable.
  - vm_compute. discriminate.
Qed.

Lemma subscribed_reachable : reachable 1000 Scenario.subscribed.
Proof.
  apply (reachable_step 0 (constructor Scenario.deployer)
           (mkEnv Scenario.alice 100 1000)
           (CallCreateSubscription Scenario.bob 5)).
  - apply reachable_deploy.
  - vm_compute. discriminate.
Qed.

Lemma oversubscribed_reachable : reachable 1000 Scenario.oversubscribed.
Proof.
  apply (reachable_step 0 (constructor Scenario.deployer)
           (mkEnv Scenario.alice 1 1000)
           (CallCreateSubscription Scenario.bob (2 ^ 255))).
  - apply reachable_deploy.
  - vm_compute. discriminate.
Qed.

Lemma streaming_stream1 :
  streams Scenario.streaming !! 1 = Some Scenario.stream1.
Proof. vm_compute. reflexivity. Qed.

Lemma subscribed_subscription1 :
  subscriptions Scenario.subscribed !! 1 = Some Scenario.subscription1.
Proof. vm_compute. reflexivity. Qed.

(** * Accrual *)

(** What [balanceOf] returns for a stored, active stream once the
    subtraction and the multiplication are known to stay in range. *)
Lemma balanceOf_active env i st s :
  streams st !! i = Some s ->
  stream_id s <> 0 ->
  stream_active s = true ->
  stream_startTime s <= stream_stopTime s ->
  stream_startTime s <= block_timestamp env ->
  elapsed_at s (block_timestamp env) * stream_ratePerSecond s <= MAX_UINT256 ->
  balanceOf env i st =
  let earned :=
    elapsed_at s (block_timestamp env) * stream_ratePerSecond s in
  if stream_deposit s <=? earned
  then Good (stream_remainingBalance s, 0)
  else Good (earned, stream_deposit s - earned).
Proof.
  intros Hl Hid Ha Hspan Hstart Hmax. unfold balanceOf, stream_at.
  rewrite Hl. cbn [default from_option id].
  apply N.eqb_neq in Hid. rewrite Hid, Ha. cbn [negb check mbind Checked_bind].
  assert ((if stream_stopTime s <=? block_timestamp env
           then checked_sub (stream_stopTime s) (stream_startTime s)
           else checked_sub (block_timestamp env) (stream_startTime s))
          = Good (elapsed_at s (block_timestamp env))) as ->.
  { unfold elapsed_at. destruct (_ <=? _); apply checked_sub_ok; assumption. }
  cbn [mbind Checked_bind].
  rewrite checked_mul_ok by assumption. cbn [mbind Checked_bind]. cbn zeta.
  destruct (N.leb_spec (stream_deposit s)
    (elapsed_at s (block_timestamp env) * stream_ratePerSecond s));
    [reflexivity|].
  rewrite checked_sub_ok by lia. reflexivity.
Qed.

Lemma elapsed_at_le s now :
  stream_startTime s <= stream_stopTime s ->
  elapsed_at s now <= stream_stopTime s - stream_startTime s.
Proof.
  intros. unfold elapsed_at.
  destruct (N.leb_spec (stream_stopTime s) now); lia.
Qed.


(** In a well-formed state the accrual of an active stream is defined
    from its start time on, with the earned amount bounded by the
    deposit. *)
Lemma balanceOf_wf st i s env :
  wf st ->
  streams st !! i = Some s ->
  stream_active s = true ->
  stream_startTime s <= block_timestamp env ->
  let earned :=
    elapsed_at s (block_timestamp env) * stream_ratePerSecond s in
  earned <= stream_deposit s /\
  balanceOf env i st =
  if stream_deposit s <=? earned
  then Good (stream_remainingBalance s, 0)
  else Good (earned, stream_deposit s - earned).
Proof.
  intros Hw Hl Ha Hle earned.
  pose proof (wf_streams _ Hw _ _ Hl)
    as [Halloc Hid Hspan Hdep Hrange Hrem].
  assert (earned <= stream_deposit s) as Hearned.
  { subst earned. rewrite Hdep.
    rewrite (N.mul_comm (stream_ratePerSecond s)).
    apply N.mul_le_mono_r, elapsed_at_le. assumption. }
  split; [assumption|].
  apply balanceOf_active; auto; try lia.
Qed.

(** In a reachable state this holds at every time from the latest block
    on. *)
Lemma balanceOf_reachable t st i s env :
  reachable t st ->
  streams st !! i = Some s ->
  stream_active s = true ->
  t <= block_timestamp env ->
  let earned :=
    elapsed_at s (block_timestamp env) * stream_ratePerSecond s in
  earned <= stream_deposit s /\
  balanceOf env i st =
  if stream_deposit s <=? earned
  then Good (stream_remainingBalance s, 0)
  else Good (earned, stream_deposit s - earned).
Proof.
  intros Hr Hl Ha Hle.
  pose proof (timely_streams _ _ (reachable_timely _ _ Hr) _ _ Hl).
  apply balanceOf_wf; eauto using reachable_wf. lia.
Qed.

(** While an active stream has earned less than its deposit, the two
    shares of [balanceOf] add up to the deposit, whatever has been
    withdrawn before. *)
Lemma balanceOf_sum_deposit t st i s env r sb :
  reachable t st ->
  streams st !! i = Some s ->
  stream_active s = true ->
  t <= block_timestamp env ->
  elapsed_at s (block_timestamp env) * stream_ratePerSecond s
    < stream_deposit s ->
  balanceOf env i st = Good (r, sb) ->
  r + sb = stream_deposit s.
Proof.
  intros Hr Hl Ha Ht Hlt.
  destruct (balanceOf_reachable t st i s env Hr Hl Ha Ht) as [_ ->].
  apply N.leb_gt in Hlt. rewrite Hlt. intros [= <- <-].
  apply N.leb_gt in Hlt. lia.
Qed.

(** Before any withdrawal the shares add up to the remaining balance. *)
Lemma balanceOf_sum_unwithdrawn t st i s env r sb :
  reachable t st ->
  streams st !! i = Some s ->
  stream_active s = true ->
  t <= block_timestamp env ->
  stream_remainingBalance s = stream_deposit s ->
  balanceOf env i st = Good (r, sb) ->
  r + sb = stream_remainingBalance s.
Proof.
  intros Hr Hl Ha Ht Hfull.
  destruct (balanceOf_reachable t st i s env Hr Hl Ha Ht) as [Hle ->].
  destruct (N.leb_spec (stream_deposit s)
    (elapsed_at s (block_timestamp env) * stream_ratePerSecond s));
    intros [= <- <-]; lia.
Qed.

(** C1: at a time before stopTime the pair returned by balanceOf for an
    active stream adds up to remainingBalance, also after a partial
    withdrawal.  The code does not do this: in the scenario, bob has
    withdrawn 1000 of the 3600 deposited, 2600 remain, and 2000 seconds
    into the stream balanceOf returns (2000, 1600), which adds up to the
    deposit. *)
Theorem C1_split_after_partial_withdrawal :
  reachable 2000 Scenario.withdrawn_once /\
  stream_at Scenario.withdrawn_once 1 =
    mkStream 1 Scenario.alice Scenario.bob 3600 1 1000 4600 2600 true /\
  balanceOf (mkEnv Scenario.bob 0 3000) 1 Scenario.withdrawn_once =
    Good (2000, 1600) /\
  2000 + 1600 <> stream_remainingBalance (stream_at Scenario.withdrawn_once 1).
Proof.
  split; [apply withdrawn_once_reachable|].
  vm_compute. repeat split. discriminate.
Qed.

(** The second withdrawal then pays out of the full accrual again: 999
    and 1998 are sent to bob although 2000 had accrued. *)
Lemma withdrawn_twice_overpays :
  transfers (trace_of (withdrawFromStream (mkEnv Scenario.bob 0 2000) 1)
               Scenario.streaming) = [(Scenario.bob, 999)] /\
  transfers (trace_of (withdrawFromStream (mkEnv Scenario.bob 0 3000) 1)
               Scenario.withdrawn_once) = [(Scenario.bob, 1998)].
Proof. vm_compute. split; reflexivity. Qed.

(** After a withdrawal the recipient's share is no longer monotone: it
    follows the lifetime accrual up to stopTime and falls back to
    remainingBalance there. *)
Lemma recipientBalance_drops_after_withdrawal :
  balanceOf (mkEnv Scenario.bob 0 4599) 1 Scenario.withdrawn_once
    = Good (3599, 1) /\
  balanceOf (mkEnv Scenario.bob 0 4600) 1 Scenario.withdrawn_once
    = Good (2600, 0).
Proof. vm_compute. split; reflexivity. Qed.



(** C9: for an id that was never allocated (zero, or not below
    nextStreamId) getStream succeeds and returns the all-zero record,
    while balanceOf rejects the same id with "Stream doesn't exist". *)
Theorem C9_unallocated_stream t st i env :
  reachable t st ->
  i = 0 \/ nextStreamId st <= i ->
  getStream i st = Good (0, 0, 0, 0, 0, 0, 0, false) /\
  balanceOf env i st = Bad (RequireFailed "Stream doesn't exist").
Proof.
  intros Hr Hi.
  assert (streams st !! i = None) as Hn.
  { destruct (streams st !! i) as [s|] eqn:Hl; [|reflexivity].
    pose proof (wf_streams _ (reachable_wf _ _ Hr) _ _ Hl) as []. lia. }
  unfold getStream, balanceOf, stream_at. rewrite Hn. split; reflexivity.
Qed.

(** C9 on the id 7, which the scenario never allocated. *)
Lemma C9_witness :
  getStream 7 Scenario.streaming = Good (0, 0, 0, 0, 0, 0, 0, false) /\
  balanceOf (mkEnv Scenario.bob 0 1500) 7 Scenario.streaming =
    Bad (RequireFailed "Stream doesn't exist").
Proof.
  apply (C9_unallocated_stream 1000 Scenario.streaming 7
           (mkEnv Scenario.bob 0 1500) streaming_reachable).
  right. vm_compute. discriminate.
Defined.

(** * Settlement *)

(** Small amounts are far inside the 256-bit range. *)
Lemma MAX_UINT256_large : 18446744073709551616 <= MAX_UINT256.
Proof. vm_compute. discriminate. Qed.

(** C2, as stated: the withdrawal pays 1798 and credits 2.  In the
    scenario it pays 1799 and credits 1. *)
Lemma C2_counterexample :
  reachable 1000 Scenario.streaming /\
  match withdrawFromStream (mkEnv Scenario.bob 0 2800) 1 Scenario.streaming
  with
  | Ok _ st' tr =>
      transfers tr = [(Scenario.bob, 1799)] /\
      transfers tr <> [(Scenario.bob, 1798)] /\
      balance_at st' Scenario.deployer = 1 /\
      balance_at st' Scenario.deployer
        <> balance_at Scenario.streaming Scenario.deployer + 2
  | Revert _ => False
  end.
Proof.
  split; [apply streaming_reachable|].
  vm_compute. repeat split; discriminate.
Qed.
(** C2, amended: for a stream with deposit 3600, ratePerSecond 1,
    duration 3600 and platformFee 10, from which nothing has been
    withdrawn, balanceOf at startTime + 1800 returns (1800, 1800), and a
    withdrawal by the recipient at that time transfers 1799 to the
    recipient, credits 1 (the floor of 1800 * 10 / 10000) to the owner's
    balance entry, leaves remainingBalance at 1800 and the stream
    active.  The withdrawal completes when the owner's entry can take
    the fee and the contract holds the 1799. *)
Theorem C2_withdraw_halfway t st env i s :
  reachable t st ->
  streams st !! i = Some s ->
  stream_active s = true ->
  stream_deposit s = 3600 ->
  stream_ratePerSecond s = 1 ->
  stream_stopTime s = stream_startTime s + 3600 ->
  stream_remainingBalance s = 3600 ->
  platformFee st = 10 ->
  msg_sender env = stream_recipient s ->
  block_timestamp env = stream_startTime s + 1800 ->
  balanceOf env i st = Good (1800, 1800) /\
  (forall st' tr,
     withdrawFromStream env i st = Ok tt st' tr ->
     transfers tr = [(stream_recipient s, 1799)] /\
     balance_at st' (owner st) = balance_at st (owner st) + 1 /\
     stream_remainingBalance (stream_at st' i) = 1800 /\
     stream_active (stream_at st' i) = true) /\
  (balance_at st (owner st) + 1 <= MAX_UINT256 ->
   1799 <= this_balance st ->
   exists st' tr, withdrawFromStream env i st = Ok tt st' tr).
Proof.
  intros Hr Hl Ha Hdep Hrate Hstop Hrem Hfee Hcaller Hnow.
  pose proof (reachable_wf _ _ Hr) as Hw.
  pose proof (wf_guard _ Hw) as Hg.
  pose proof MAX_UINT256_large as Hmax.
  pose proof (wf_streams _ Hw _ _ Hl) as [Halloc Hid Hspan Hd Hrange Hle].
  assert (balanceOf env i st = Good (1800, 1800)) as Hbal.
  { rewrite (balanceOf_active env i st s); auto; try lia.
    all: unfold elapsed_at; rewrite Hnow, Hstop, Hrate, ?Hdep.
    all: replace (stream_startTime s + 3600 <=? stream_startTime s + 1800)
      with false by (symmetry; apply N.leb_gt; lia).
    all: replace (stream_startTime s + 1800 - stream_startTime s)
      with 1800 by lia.
    - reflexivity.
    - lia. }
  split; [assumption|]. split.
  - intros st' tr H. unfold withdrawFromStream in H.
    exec_M H; simp_reads; rewrite ?Hl in *;
      cbn [default from_option id] in *;
      rewrite ?Hbal in *; simplify_eq;
      rewrite ?Hfee, ?Hrem, ?Hstop, ?Hnow in *; cases;
      change (1800 * 10 / 10000) with 1 in *;
      change (1800 - 1) with 1799 in *;
      change (3600 - 1800) with 1800 in *;
      try lia.
    repeat split; try assumption. cbn [transfers]. congruence.
  - intros Hown Hheld. unfold balance_at in Hown.
    remember (withdrawFromStream env i st) as r eqn:H. symmetry in H.
    unfold withdrawFromStream in H.
    walk_M H; simp_reads; rewrite ?Hl in *;
      cbn [default from_option id] in *; subst r;
      rewrite ?Hbal in *; simplify_eq;
      rewrite ?Hfee, ?Hrem, ?Hstop, ?Hnow in *; cases;
      change (1800 * 10 / 10000) with 1 in *;
      change (1800 - 1) with 1799 in *;
      change (3600 - 1800) with 1800 in *;
      try congruence; eauto; lia.
Qed.
(** The amended C2 on the scenario's stream. *)
Lemma C2_witness :
  balanceOf (mkEnv Scenario.bob 0 2800) 1 Scenario.streaming
    = Good (1800, 1800) /\
  (forall st' tr,
     withdrawFromStream (mkEnv Scenario.bob 0 2800) 1 Scenario.streaming
       = Ok tt st' tr ->
     transfers tr = [(Scenario.bob, 1799)] /\
     balance_at st' (owner Scenario.streaming)
       = balance_at Scenario.streaming (owner Scenario.streaming) + 1 /\
     stream_remainingBalance (stream_at st' 1) = 1800 /\
     stream_active (stream_at st' 1) = true) /\
  (balance_at Scenario.streaming (owner Scenario.streaming) + 1
     <= MAX_UINT256 ->
   1799 <= this_balance Scenario.streaming ->
   exists st' tr,
     withdrawFromStream (mkEnv Scenario.bob 0 2800) 1 Scenario.streaming
       = Ok tt st' tr).
Proof.
  apply (C2_withdraw_halfway 1000 Scenario.streaming
           (mkEnv Scenario.bob 0 2800) 1 Scenario.stream1
           streaming_reachable streaming_stream1);
    reflexivity.
Defined.



(** In a reachable state the accrual of an active stream is always
    defined, so a cancellation by the sender or the recipient completes
    whenever the fee arithmetic stays in range and the contract holds
    the two payouts. *)
Lemma cancelStream_completes t st env i s rb sb :
  reachable t st ->
  t <= block_timestamp env ->
  streams st !! i = Some s ->
  stream_active s = true ->
  stream_sender s = msg_sender env \/ stream_recipient s = msg_sender env ->
  balanceOf env i st = Good (rb, sb) ->
  rb * platformFee st <= MAX_UINT256 ->
  balance_at st (owner st) + rb * platformFee st / 10000 <= MAX_UINT256 ->
  (rb - rb * platformFee st / 10000) + sb <= this_balance st ->
  exists st' tr, cancelStream env i st = Ok tt st' tr.
Proof.
  intros Hr Ht Hl Ha Hauth Hbal Hmul Hadd Hpay.
  pose proof (reachable_wf _ _ Hr) as Hw.
  pose proof (wf_guard _ Hw) as Hg.
  pose proof (fee_le rb (platformFee st)) as Hfee.
  pose proof (wf_fee _ Hw) as Hbps.
  unfold balance_at in Hadd.
  remember (cancelStream env i st) as r eqn:H. symmetry in H.
  unfold cancelStream in H.
  walk_M H; simp_reads; rewrite ?Hl in *;
    cbn [default from_option id] in *; subst r;
    rewrite ?Hbal in *; simplify_eq; cases;
    try congruence; eauto; exfalso; simp_lookups; lia.
Qed.



(** C6, as stated: the call fails with the insufficient-balance error.
    In the scenario with the rate 2^255, two seconds after creation the
    balance 1 is below the 2^256 due, and the call fails with the
    arithmetic panic. *)
Lemma C6_counterexample :
  reachable 1000 Scenario.oversubscribed /\
  sub_active (subscription_at Scenario.oversubscribed 1) = true /\
  balance_at Scenario.oversubscribed Scenario.alice = 1 /\
  run (processSubscriptionPayment (mkEnv Scenario.bob 0 1002) 1)
    Scenario.oversubscribed =
    (Scenario.oversubscribed, Bad (Panic ARITHMETIC)).
Proof.
  split; [apply oversubscribed_reachable|]. vm_compute. repeat split.
Qed.
(** C6, amended: when the subscription is active and the subscriber's
    balance is below elapsed * ratePerSecond, processSubscriptionPayment
    reverts and the state is unchanged; the error is "Insufficient
    balance" when the product fits in 256 bits and the arithmetic panic
    of the checked multiplication otherwise.  So after a top-up a
    settlement that succeeds at a later time charges for the whole time
    since the old lastPaymentTime. *)
Theorem C6_insufficient_balance t st env i sub :
  reachable t st ->
  t <= block_timestamp env ->
  subscriptions st !! i = Some sub ->
  sub_active sub = true ->
  let payment :=
    (block_timestamp env - sub_lastPaymentTime sub) * sub_ratePerSecond sub in
  balance_at st (sub_subscriber sub) < payment ->
  run (processSubscriptionPayment env i) st =
    (st, Bad (if payment <=? MAX_UINT256
              then RequireFailed "Insufficient balance"
              else Panic ARITHMETIC)) /\
  forall envT env' st1 trT st2 tr,
    topUpSubscription envT i
      (fst (run (processSubscriptionPayment env i) st)) = Ok tt st1 trT ->
    processSubscriptionPayment env' i st1 = Ok tt st2 tr ->
    let charged :=
      (block_timestamp env' - sub_lastPaymentTime sub)
      * sub_ratePerSecond sub in
    exists net,
      net + charged * platformFee st / 10000 = charged /\
      transfers tr = [(sub_provider sub, net)].
Proof.
  intros Hr Ht Hl Ha payment Hlt.
  pose proof (reachable_wf _ _ Hr) as Hw.
  pose proof (wf_guard _ Hw) as Hg.
  pose proof (timely_subscriptions _ _ (reachable_timely _ _ Hr) _ _ Hl)
    as Hlast.
  assert (run (processSubscriptionPayment env i) st =
          (st, Bad (if payment <=? MAX_UINT256
                    then RequireFailed "Insufficient balance"
                    else Panic ARITHMETIC))) as Hrun.
  { unfold run.
    remember (processSubscriptionPayment env i st) as r eqn:H. symmetry in H.
    unfold processSubscriptionPayment in H. subst payment.
    destruct (N.leb_spec
      ((block_timestamp env - sub_lastPaymentTime sub)
       * sub_ratePerSecond sub) MAX_UINT256);
    walk_M H; simp_reads;
      rewrite ?Hl in *; cbn [default from_option id] in *; facts; subst r;
      try congruence; try (exfalso; simp_lookups; lia). }
  split; [assumption|].
  rewrite Hrun. cbn [fst].
  intros envT env' st1 trT st2 tr Htop Hpay.
  unfold topUpSubscription in Htop. exec_M Htop.
  unfold processSubscriptionPayment in Hpay. exec_M Hpay.
  simp_reads. rewrite ?Hl in *. cbn [default from_option id] in *. facts.
  eexists. split; [|reflexivity]. lia.
Qed.
(** The amended C6 on the scenario's subscription after 30 seconds:
    150 are due and 100 are held. *)
Lemma C6_witness :
  run (processSubscriptionPayment (mkEnv Scenario.bob 0 1030) 1)
    Scenario.subscribed =
    (Scenario.subscribed, Bad (RequireFailed "Insufficient balance")) /\
  forall envT env' st1 trT st2 tr,
    topUpSubscription envT 1
      (fst (run (processSubscriptionPayment (mkEnv Scenario.bob 0 1030) 1)
              Scenario.subscribed)) = Ok tt st1 trT ->
    processSubscriptionPayment env' 1 st1 = Ok tt st2 tr ->
    let charged :=
      (block_timestamp env' - sub_lastPaymentTime Scenario.subscription1)
      * sub_ratePerSecond Scenario.subscription1 in
    exists net,
      net + charged * platformFee Scenario.subscribed / 10000 = charged /\
      transfers tr = [(sub_provider Scenario.subscription1, net)].
Proof.
  apply (C6_insufficient_balance 1000 Scenario.subscribed
           (mkEnv Scenario.bob 0 1030) 1 Scenario.subscription1
           subscribed_reachable);
    try reflexivity; try apply subscribed_subscription1;
    vm_compute; try discriminate; reflexivity.
Defined.

(** When the subscriber holds a balance and the product
    [elapsed * ratePerSecond] leaves the 256-bit range, the cancellation
    stops at the multiplication. *)
Lemma cancelSubscription_overflow t st env i sub :
  reachable t st ->
  t <= block_timestamp env ->
  subscriptions st !! i = Some sub ->
  sub_active sub = true ->
  sub_subscriber sub = msg_sender env \/ sub_provider sub = msg_sender env ->
  0 < balance_at st (sub_subscriber sub) ->
  MAX_UINT256 <
    (block_timestamp env - sub_lastPaymentTime sub) * sub_ratePerSecond sub ->
  run (cancelSubscription env i) st = (st, Bad (Panic ARITHMETIC)).
Proof.
  intros Hr Ht Hl Ha Hauth Hheld Hmax.
  pose proof (reachable_wf _ _ Hr) as Hw.
  pose proof (wf_guard _ Hw) as Hg.
  pose proof (timely_subscriptions _ _ (reachable_timely _ _ Hr) _ _ Hl)
    as Hlast.
  unfold run, balance_at in *.
  remember (cancelSubscription env i st) as r eqn:H. symmetry in H.
  unfold cancelSubscription in H.
  walk_M H; simp_reads; rewrite ?Hl in *;
    cbn [default from_option id] in *; subst r; cases;
    try congruence; try (exfalso; simp_lookups; lia).
Qed.



(** * Order of writes and transfers *)


(** A guarded function runs its body with the guard held and releases
    the guard at the end. *)
Lemma nonReentrant_Ok {A : Type} (body : M A) st a st' tr :
  nonReentrant body st = Ok a st' tr ->
  guard_status st = NOT_ENTERED /\
  exists st1 tr1,
    body (with_guard_status ENTERED st) = Ok a st1 tr1 /\
    st' = with_guard_status NOT_ENTERED st1 /\
    tr = EvWrite SlotGuardStatus :: tr1 ++ [EvWrite SlotGuardStatus].
Proof.
  unfold nonReentrant. unfold_M.
  destruct (guard_status st); [|discriminate].
  destruct (body (with_guard_status ENTERED st)) as [b s1 t1|];
    [|discriminate].
  cbn [app]. intros [= <- <- <-]. eauto 6.
Qed.


